(** * safevalues: HTML builders

    A shallow embedding of [htmlEscape], [scriptToHtml], [scriptUrlToHtml],
    [htmlEscapeToString] and [concatHtmls], with the part of the ECMAScript
    string and regular-expression semantics these functions rely on. *)

From Stdlib Require Import List NArith Arith Bool Lia String Ascii.
Import ListNotations.

Set Implicit Arguments.

(** ** JavaScript strings

    A JavaScript string is a finite sequence of UTF-16 code units.  A regular
    expression without the [u] flag works on code units, so surrogates are
    ordinary elements of the sequence. *)

Definition code_unit := N.
Definition jsstring := list code_unit.

(** The code units of an ASCII literal of the source text. *)
Definition lit (s : string) : jsstring :=
  map N_of_ascii (list_ascii_of_string s).

Definition CR : code_unit := 13%N.
Definition LF : code_unit := 10%N.
Definition TAB : code_unit := 9%N.
Definition SP : code_unit := 32%N.
Definition DQ : code_unit := 34%N.      (* the double quote *)
Definition AMP : code_unit := 38%N.
Definition SQ : code_unit := 39%N.      (* the single quote *)
Definition LT : code_unit := 60%N.
Definition GT : code_unit := 62%N.
Definition DOLLAR : code_unit := 36%N.
Definition DIGIT1 : code_unit := 49%N.

(** ** Regular expressions

    The fragment of the pattern syntax that occurs in the source: pattern
    characters, character classes, the [^] assertion (no [m] flag), sequence,
    disjunction, the greedy [+] quantifier and one capturing group. *)

Inductive regex : Type :=
| Chr (c : code_unit)
| Class (cs : list code_unit)
| Bol
| Seq (r1 r2 : regex)
| Alt (r1 r2 : regex)
| Plus (r : regex)
| Group (r : regex).

(** State of the backtracking matcher: the index reached in the input, the
    input from that index on, and the value of capture 1 ([None] is
    undefined). *)
Record mstate : Type := MState {
  pos : nat;
  rest : jsstring;
  cap : option jsstring
}.

Definition continuation := mstate -> option mstate.

Definition advance (x : mstate) (t : jsstring) : mstate :=
  MState (S (pos x)) t (cap x).

(** The iterations of [r+] after the first one: greedy, and an iteration that
    consumes nothing is rejected.  Every accepted iteration consumes a code
    unit, so the length of the remaining input bounds their number. *)
Fixpoint repeat_more (step : mstate -> continuation -> option mstate)
    (k : continuation) (n : nat) (y : mstate) : option mstate :=
  match n with
  | 0 => k y
  | S n' =>
      match step y (fun z => if pos y <? pos z
                             then repeat_more step k n' z else None) with
      | Some w => Some w
      | None => k y
      end
  end.

Fixpoint rmatch (r : regex) (x : mstate) (k : continuation) : option mstate :=
  match r with
  | Chr c =>
      match rest x with
      | a :: t => if N.eqb a c then k (advance x t) else None
      | [] => None
      end
  | Class cs =>
      match rest x with
      | a :: t => if existsb (N.eqb a) cs then k (advance x t) else None
      | [] => None
      end
  | Bol => if pos x =? 0 then k x else None
  | Seq r1 r2 => rmatch r1 x (fun y => rmatch r2 y k)
  | Alt r1 r2 =>
      match rmatch r1 x k with
      | Some y => Some y
      | None => rmatch r2 x k
      end
  | Plus r' =>
      rmatch r' x
        (fun y => repeat_more (rmatch r') k (List.length (rest y)) y)
  | Group r' =>
      rmatch r' x
        (fun y => k (MState (pos y) (rest y)
                       (Some (firstn (pos y - pos x) (rest x)))))
  end.

Fixpoint has_group (r : regex) : bool :=
  match r with
  | Chr _ | Class _ | Bol => false
  | Seq r1 r2 | Alt r1 r2 => has_group r1 || has_group r2
  | Plus r' => has_group r'
  | Group _ => true
  end.

(** A match attempt at index [i], where [s] is the input from [i] on. *)
Definition exec (r : regex) (i : nat) (s : jsstring) : option mstate :=
  rmatch r (MState i s None) Some.

(** Expansion of a replacement template: [$$], [$&] and [$1].  The templates
    of the source use no other reference. *)
Fixpoint GetSubstitution (grp : bool) (matched : jsstring)
    (capture : option jsstring) (template : jsstring) : jsstring :=
  match template with
  | [] => []
  | c :: t =>
      if N.eqb c DOLLAR then
        match t with
        | d :: t' =>
            if N.eqb d DOLLAR then
              DOLLAR :: GetSubstitution grp matched capture t'
            else if N.eqb d AMP then
              matched ++ GetSubstitution grp matched capture t'
            else if N.eqb d DIGIT1 && grp then
              match capture with Some g => g | None => [] end
                ++ GetSubstitution grp matched capture t'
            else c :: GetSubstitution grp matched capture t
        | [] => [c]
        end
      else c :: GetSubstitution grp matched capture t
  end.

(** [String.prototype.replace] with a pattern that has the [g] flag: matches
    are looked for from left to right, each search starting where the last
    match ended (one further after an empty match); the text between matches
    is copied.  [i] is the index of the head of [s], and [skip] counts the
    code units of [s] still covered by the last match. *)
Fixpoint replace_from (r : regex) (template : jsstring) (i skip : nat)
    (s : jsstring) : jsstring :=
  match s with
  | [] =>
      match exec r i [] with
      | Some y => GetSubstitution (has_group r) [] (cap y) template
      | None => []
      end
  | c :: t =>
      match skip with
      | S k => replace_from r template (S i) k t
      | 0 =>
          match exec r i s with
          | Some y =>
              let n := pos y - i in
              GetSubstitution (has_group r) (firstn n s) (cap y) template
                ++ match n with
                   | 0 => c :: replace_from r template (S i) 0 t
                   | S k => replace_from r template (S i) k t
                   end
          | None => c :: replace_from r template (S i) 0 t
          end
      end
  end.

Definition replace (s : jsstring) (r : regex) (template : jsstring)
  : jsstring :=
  replace_from r template 0 0 s.

(** [Array.prototype.join] on an array of strings. *)
Fixpoint join (sep : jsstring) (l : list jsstring) : jsstring :=
  match l with
  | [] => []
  | [x] => x
  | x :: l' => x ++ sep ++ join sep l'
  end.

(** The empty string literal. *)
Definition empty_string : jsstring := [].

(** [toString] of a string value. *)
Definition toString (s : jsstring) : jsstring := s.

(** ** The trusted value types *)

(** Modelled from the spec: [createHtml] and [unwrapHtml] of
    [internals/html_impl], which is not part of the sources at hand.  The spec
    describes them as the capability to create a branded value from a raw
    string and to extract the raw string from a branded value. *)
Record SafeHtml : Type := createHtml { unwrapHtml : jsstring }.

(** Modelled from the spec: the script wrapper of [internals/script_impl] and
    its accessor. *)
Record SafeScript : Type := createScript { unwrapScript : jsstring }.

(** Modelled from the spec: the resource-URL wrapper of
    [internals/resource_url_impl] and its accessor. *)
Record TrustedResourceUrl : Type :=
  createResourceUrl { unwrapResourceUrl : jsstring }.

(** ** Option objects

    An optional property is [None] when it is absent.  A condition
    [if (options.x)] tests the truthiness of the property: an absent
    property and the empty string are falsy, so is [false]. *)

Definition truthy_string (v : option jsstring) : option jsstring :=
  match v with
  | Some (c :: t) => Some (c :: t)
  | _ => None
  end.

Definition truthy_bool (v : option bool) : bool :=
  match v with
  | Some b => b
  | None => false
  end.

Record EscapeOptions : Type := {
  preserveNewlines : option bool;
  preserveSpaces : option bool;
  preserveTabs : option bool
}.

Definition no_escape_options : EscapeOptions :=
  {| preserveNewlines := None; preserveSpaces := None; preserveTabs := None |}.

Module ScriptOptions.
Record t : Type := make {
  id : option jsstring;
  nonce : option jsstring;
  type : option jsstring
}.
Definition empty : t := make None None None.
End ScriptOptions.

Module ScriptUrlOptions.
Record t : Type := make {
  async : option bool;
  nonce : option jsstring
}.
Definition empty : t := make None None.
End ScriptUrlOptions.

(** ** The functions of the source *)

Definition htmlEscapeToString (text : jsstring) : jsstring :=
  let escaped :=
    replace
      (replace
         (replace
            (replace
               (replace text (Chr AMP) (lit "&amp;"))
               (Chr LT) (lit "&lt;"))
            (Chr GT) (lit "&gt;"))
         (Chr DQ) (lit "&quot;"))
      (Chr SQ) (lit "&apos;") in
  escaped.

(** [/(^|[\r\n\t ]) /g] *)
Definition re_space : regex :=
  Seq (Group (Alt Bol (Class [CR; LF; TAB; SP]))) (Chr SP).

(** [/(\r\n|\n|\r)/g] *)
Definition re_newline : regex :=
  Group (Alt (Seq (Chr CR) (Chr LF)) (Alt (Chr LF) (Chr CR))).

(** [/(\t+)/g] *)
Definition re_tabs : regex := Group (Plus (Chr TAB)).

Definition span_template : jsstring :=
  lit "<span style=" ++ [DQ] ++ lit "white-space:pre" ++ [DQ]
    ++ lit ">$1</span>".

Definition htmlEscape (text : jsstring) (options : EscapeOptions) : SafeHtml :=
  let htmlEscapedString := htmlEscapeToString text in
  let htmlEscapedString :=
    if truthy_bool (preserveSpaces options)
    then replace htmlEscapedString re_space (lit "$1&#160;")
    else htmlEscapedString in
  let htmlEscapedString :=
    if truthy_bool (preserveNewlines options)
    then replace htmlEscapedString re_newline (lit "<br>")
    else htmlEscapedString in
  let htmlEscapedString :=
    if truthy_bool (preserveTabs options)
    then replace htmlEscapedString re_tabs span_template
    else htmlEscapedString in
  createHtml htmlEscapedString.

Definition scriptToHtml (script : SafeScript) (options : ScriptOptions.t)
  : SafeHtml :=
  let unwrappedScript := toString (unwrapScript script) in
  let stringTag := lit "<script" in
  let stringTag :=
    match truthy_string (ScriptOptions.id options) with
    | Some v => stringTag ++ lit " id=" ++ [DQ] ++ htmlEscapeToString v ++ [DQ]
    | None => stringTag
    end in
  let stringTag :=
    match truthy_string (ScriptOptions.nonce options) with
    | Some v =>
        stringTag ++ lit " nonce=" ++ [DQ] ++ htmlEscapeToString v ++ [DQ]
    | None => stringTag
    end in
  let stringTag :=
    match truthy_string (ScriptOptions.type options) with
    | Some v =>
        stringTag ++ lit " type=" ++ [DQ] ++ htmlEscapeToString v ++ [DQ]
    | None => stringTag
    end in
  (* the escape \x3c of the source text denotes the character < *)
  let stringTag := stringTag ++ lit ">" ++ unwrappedScript ++ lit "</script>" in
  createHtml stringTag.

Definition scriptUrlToHtml (src : TrustedResourceUrl)
    (options : ScriptUrlOptions.t) : SafeHtml :=
  let unwrappedSrc := toString (unwrapResourceUrl src) in
  let stringTag :=
    lit "<script src=" ++ [DQ] ++ htmlEscapeToString unwrappedSrc ++ [DQ] in
  let stringTag :=
    if truthy_bool (ScriptUrlOptions.async options)
    then stringTag ++ lit " async"
    else stringTag in
  let stringTag :=
    match truthy_string (ScriptUrlOptions.nonce options) with
    | Some v =>
        stringTag ++ lit " nonce=" ++ [DQ] ++ htmlEscapeToString v ++ [DQ]
    | None => stringTag
    end in
  (* here too \x3c is the character < *)
  let stringTag := stringTag ++ lit "></script>" in
  createHtml stringTag.

Definition concatHtmls (htmls : list SafeHtml) : SafeHtml :=
  createHtml (join empty_string (map unwrapHtml htmls)).

(** ** Reference transformations

    The transformations stated on the text itself, without regular
    expressions.  The functions of the source are compared with them. *)

(** The entity that stands for a structural character. *)
Definition entity (c : code_unit) : jsstring :=
  if N.eqb c AMP then lit "&amp;"
  else if N.eqb c LT then lit "&lt;"
  else if N.eqb c GT then lit "&gt;"
  else if N.eqb c DQ then lit "&quot;"
  else if N.eqb c SQ then lit "&apos;"
  else [c].

Definition spec_entities (s : jsstring) : jsstring := flat_map entity s.

(** Replacement of every occurrence of one code unit. *)
Definition subst1 (c : code_unit) (by_ : jsstring) (a : code_unit)
  : jsstring :=
  if N.eqb a c then by_ else [a].

(** The boundary characters of the space rewrite, other than the start of
    the text. *)
Definition is_boundary (c : code_unit) : bool :=
  existsb (N.eqb c) [CR; LF; TAB; SP].

(** One pass from left to right: a space that follows a boundary becomes the
    entity, and a space that was rewritten is used up, it is no boundary for
    the next one.  [after_boundary] tells whether the text read so far ends in
    a boundary; it is [true] at the start of the text. *)
Fixpoint spec_spaces (after_boundary : bool) (s : jsstring) : jsstring :=
  match s with
  | [] => []
  | c :: t =>
      if after_boundary && N.eqb c SP
      then lit "&#160;" ++ spec_spaces false t
      else c :: spec_spaces (is_boundary c) t
  end.

(** Each of CR LF, LF and CR becomes a line break element. *)
Fixpoint spec_newlines (s : jsstring) : jsstring :=
  match s with
  | [] => []
  | c :: t =>
      if N.eqb c CR then
        lit "<br>" ++ match t with
                      | d :: t' =>
                          if N.eqb d LF then spec_newlines t'
                          else spec_newlines t
                      | [] => []
                      end
      else if N.eqb c LF then lit "<br>" ++ spec_newlines t
      else c :: spec_newlines t
  end.

Definition span_open : jsstring :=
  lit "<span style=" ++ [DQ] ++ lit "white-space:pre" ++ [DQ] ++ lit ">".

Definition span_close : jsstring := lit "</span>".

(** Every maximal run of tabs is wrapped: the element is opened where a run
    starts and closed where it ends.  [in_run] tells whether the text read so
    far ends in a tab. *)
Fixpoint spec_tabs (in_run : bool) (s : jsstring) : jsstring :=
  match s with
  | [] => if in_run then span_close else []
  | c :: t =>
      if N.eqb c TAB
      then (if in_run then [] else span_open) ++ c :: spec_tabs true t
      else (if in_run then span_close else []) ++ c :: spec_tabs false t
  end.

(** The number of tabs a text starts with. *)
Fixpoint leading_tabs (s : jsstring) : nat :=
  match s with
  | c :: t => if N.eqb c TAB then S (leading_tabs t) else 0
  | [] => 0
  end.

(** The post-processing of the escaped text in the order space, newline,
    tab, each step under its toggle. *)
Definition spec_htmlEscape (text : jsstring) (sp nl tb : bool) : jsstring :=
  let e := spec_entities text in
  let e := if sp then spec_spaces true e else e in
  let e := if nl then spec_newlines e else e in
  if tb then spec_tabs false e else e.

(** [String.prototype.startsWith] and [String.prototype.includes]. *)
Fixpoint startsWith (s pat : jsstring) {struct pat} : bool :=
  match pat, s with
  | [], _ => true
  | a :: pat', b :: s' => N.eqb a b && startsWith s' pat'
  | _ :: _, [] => false
  end.

Fixpoint includes (s pat : jsstring) : bool :=
  startsWith s pat
  || match s with
     | [] => false
     | _ :: t => includes t pat
     end.

(** The structural characters other than the ampersand. *)
Definition is_structural (c : code_unit) : bool :=
  existsb (N.eqb c) [LT; GT; DQ; SQ].

Definition entity_list : list jsstring :=
  [lit "&amp;"; lit "&lt;"; lit "&gt;"; lit "&quot;"; lit "&apos;"].

(** Every ampersand of the text starts one of the five entities. *)
Fixpoint amp_in_entity (s : jsstring) : bool :=
  match s with
  | [] => true
  | c :: t =>
      (if N.eqb c AMP then existsb (startsWith s) entity_list else true)
      && amp_in_entity t
  end.

(** An attribute of a tag: nothing for a falsy value, otherwise a space, the
    name and the escaped value between double quotes. *)
Definition attribute (name : string) (v : option jsstring) : jsstring :=
  match truthy_string v with
  | Some x => lit " " ++ lit name ++ lit "=" ++ [DQ] ++ spec_entities x ++ [DQ]
  | None => []
  end.

Definition spaces_only : EscapeOptions :=
  {| preserveNewlines := None;
     preserveSpaces := Some true;
     preserveTabs := None |}.

(** The five characters that the escaping replaces. *)
Definition is_special (c : code_unit) : bool :=
  existsb (N.eqb c) [AMP; LT; GT; DQ; SQ].

Definition is_newline (c : code_unit) : bool :=
  existsb (N.eqb c) [CR; LF].

Definition is_angle (c : code_unit) : bool :=
  existsb (N.eqb c) [LT; GT].

(** No space that a browser would collapse: the text has no space right
    after a space, and none at its start when [after_space] is set. *)
Fixpoint no_collapsing_space (after_space : bool) (s : jsstring) : bool :=
  match s with
  | [] => true
  | c :: t =>
      negb (after_space && N.eqb c SP) && no_collapsing_space (N.eqb c SP) t
  end.

(** * Proofs *)

(** ** Global replacement: general facts *)

Lemma GetSubstitution_plain grp m c tpl :
  ~ In DOLLAR tpl -> GetSubstitution grp m c tpl = tpl.
Proof.
  induction tpl as [|a t IH]; intros H; [reflexivity|].
  cbn [GetSubstitution].
  destruct (N.eqb_spec a DOLLAR) as [->|Ha].
  - exfalso; apply H; left; reflexivity.
  - f_equal. apply IH. intros Hin; apply H; right; exact Hin.
Qed.

Lemma succ_sub i : S i - i = 1.
Proof. lia. Qed.

Lemma replace_from_Chr c tpl s :
  ~ In DOLLAR tpl ->
  forall i, replace_from (Chr c) tpl i 0 s = flat_map (subst1 c tpl) s.
Proof.
  intros Htpl. induction s as [|a t IH]; intros i; [reflexivity|].
  cbn [replace_from exec rmatch rest flat_map]. unfold subst1 at 1.
  destruct (N.eqb a c).
  - cbn [pos advance]. rewrite succ_sub.
    rewrite GetSubstitution_plain by exact Htpl.
    destruct t as [|b t']; [reflexivity|].
    now rewrite <- IH with (i := S i).
  - cbn [app]. now rewrite IH.
Qed.

Lemma replace_Chr c tpl s :
  ~ In DOLLAR tpl -> replace s (Chr c) tpl = flat_map (subst1 c tpl) s.
Proof. intros H. unfold replace. now apply replace_from_Chr. Qed.

Lemma replace_from_match r tpl i c t y k :
  exec r i (c :: t) = Some y -> pos y = i + S k ->
  replace_from r tpl i 0 (c :: t)
  = GetSubstitution (has_group r) (firstn (S k) (c :: t)) (cap y) tpl
      ++ replace_from r tpl (S i) k t.
Proof.
  intros He Hp. cbn [replace_from]. rewrite He.
  replace (pos y - i) with (S k) by lia. reflexivity.
Qed.

Lemma replace_from_nomatch r tpl i c t :
  exec r i (c :: t) = None ->
  replace_from r tpl i 0 (c :: t) = c :: replace_from r tpl (S i) 0 t.
Proof. intros He. cbn [replace_from]. now rewrite He. Qed.

Lemma replace_from_skip r tpl k :
  forall s i, k <= List.length s ->
  replace_from r tpl i k s = replace_from r tpl (i + k) 0 (skipn k s).
Proof.
  induction k as [|k IH]; intros s i Hk.
  - now rewrite Nat.add_0_r.
  - destruct s as [|c t]; [cbn in Hk; lia|].
    cbn [replace_from skipn]. rewrite IH by (cbn in Hk; lia).
    f_equal. lia.
Qed.

(** ** The five entity substitutions *)

Lemma htmlEscapeToString_flat_map s :
  htmlEscapeToString s
  = flat_map (subst1 SQ (lit "&apos;"))
      (flat_map (subst1 DQ (lit "&quot;"))
         (flat_map (subst1 GT (lit "&gt;"))
            (flat_map (subst1 LT (lit "&lt;"))
               (flat_map (subst1 AMP (lit "&amp;")) s)))).
Proof.
  unfold htmlEscapeToString.
  rewrite !replace_Chr; try reflexivity;
    cbv; intros H; repeat (destruct H as [H|H]; [discriminate H|]); exact H.
Qed.

Lemma htmlEscapeToString_cons a s :
  htmlEscapeToString (a :: s) = entity a ++ htmlEscapeToString s.
Proof.
  rewrite !htmlEscapeToString_flat_map.
  cbn [flat_map]. rewrite !flat_map_app. f_equal.
  unfold entity, subst1 at 5.
  destruct (N.eqb_spec a AMP) as [->|H1]; [reflexivity|].
  cbn [flat_map app]. unfold subst1 at 4.
  destruct (N.eqb_spec a LT) as [->|H2]; [reflexivity|].
  cbn [flat_map app]. unfold subst1 at 3.
  destruct (N.eqb_spec a GT) as [->|H3]; [reflexivity|].
  cbn [flat_map app]. unfold subst1 at 2.
  destruct (N.eqb_spec a DQ) as [->|H4]; [reflexivity|].
  cbn [flat_map app]. unfold subst1 at 1.
  destruct (N.eqb_spec a SQ) as [->|H5]; reflexivity.
Qed.

Lemma htmlEscapeToString_spec s : htmlEscapeToString s = spec_entities s.
Proof.
  induction s as [|a s IH]; [reflexivity|].
  rewrite htmlEscapeToString_cons, IH. reflexivity.
Qed.

(** ** The space rewrite *)

Lemma exec_space_start s :
  exec re_space 0 s
  = match s with
    | a :: t =>
        if N.eqb a SP then Some (MState 1 t (Some []))
        else match t with
             | b :: t' =>
                 if is_boundary a && N.eqb b SP
                 then Some (MState 2 t' (Some [a]))
                 else None
             | [] => None
             end
    | [] => None
    end.
Proof.
  destruct s as [|a t]; [reflexivity|].
  unfold exec, re_space, is_boundary.
  cbn [rmatch pos rest cap Nat.eqb advance].
  destruct (N.eqb_spec a SP) as [->|Ha]; [reflexivity|].
  destruct (existsb (N.eqb a) [CR; LF; TAB; SP]); [|destruct t; reflexivity].
  destruct t as [|b t']; [reflexivity|].
  cbn [andb rest pos cap Nat.sub firstn]. destruct (N.eqb b SP); reflexivity.
Qed.

Lemma exec_space_later j s :
  exec re_space (S j) s
  = match s with
    | a :: b :: t' =>
        if is_boundary a && N.eqb b SP
        then Some (MState (S (S (S j))) t' (Some [a]))
        else None
    | _ => None
    end.
Proof.
  destruct s as [|a t]; [reflexivity|].
  unfold exec, re_space, is_boundary.
  cbn [rmatch pos rest cap Nat.eqb advance].
  destruct (existsb (N.eqb a) [CR; LF; TAB; SP]); [|destruct t; reflexivity].
  destruct t as [|b t']; [reflexivity|].
  cbn [andb rest pos cap]. rewrite succ_sub.
  destruct (N.eqb b SP); reflexivity.
Qed.

Lemma subst_space m g :
  GetSubstitution (has_group re_space) m (Some g) (lit "$1&#160;")
  = g ++ lit "&#160;".
Proof. reflexivity. Qed.

Lemma spec_spaces_flag b s :
  match s with c :: _ => b && N.eqb c SP = false | [] => True end ->
  spec_spaces b s = spec_spaces false s.
Proof.
  destruct s as [|c t]; [reflexivity|].
  intros H. cbn [spec_spaces]. now rewrite H.
Qed.

Lemma replace_space_later n :
  forall s j, List.length s <= n ->
  replace_from re_space (lit "$1&#160;") (S j) 0 s = spec_spaces false s.
Proof.
  induction n as [|n IH]; intros s j Hn.
  - destruct s; [reflexivity|cbn in Hn; lia].
  - destruct s as [|a t]; [reflexivity|].
    cbn [List.length] in Hn.
    destruct t as [|b t'].
    + rewrite replace_from_nomatch by (now rewrite exec_space_later).
      reflexivity.
    + destruct (is_boundary a && N.eqb b SP) eqn:E.
      * rewrite replace_from_match
          with (y := MState (S (S (S j))) t' (Some [a])) (k := 1).
        2:{ rewrite exec_space_later. now rewrite E. }
        2:{ cbn [pos]. lia. }
        cbn [cap]. rewrite subst_space.
        cbn [replace_from]. rewrite IH by (cbn in Hn |- *; lia).
        apply andb_prop in E. destruct E as [Ea Eb].
        apply N.eqb_eq in Eb. subst b.
        cbn [spec_spaces andb]. rewrite Ea. reflexivity.
      * rewrite replace_from_nomatch
          by (rewrite exec_space_later; now rewrite E).
        rewrite IH by lia.
        cbn [spec_spaces andb]. now rewrite E.
Qed.

Lemma replace_space s :
  replace s re_space (lit "$1&#160;") = spec_spaces true s.
Proof.
  unfold replace. destruct s as [|a t]; [reflexivity|].
  destruct (N.eqb_spec a SP) as [->|Ha].
  - rewrite replace_from_match with (y := MState 1 t (Some [])) (k := 0);
      [|now rewrite exec_space_start|reflexivity].
    cbn [cap]. rewrite subst_space.
    rewrite replace_space_later with (n := List.length t) by lia.
    reflexivity.
  - apply N.eqb_neq in Ha.
    cbn [spec_spaces andb]. rewrite Ha.
    destruct t as [|b t'].
    + rewrite replace_from_nomatch
        by (rewrite exec_space_start; now rewrite Ha).
      reflexivity.
    + destruct (is_boundary a && N.eqb b SP) eqn:E.
      * rewrite replace_from_match
          with (y := MState 2 t' (Some [a])) (k := 1);
          [|rewrite exec_space_start; now rewrite Ha, E|reflexivity].
        cbn [cap]. rewrite subst_space.
        cbn [replace_from].
        rewrite replace_space_later with (n := List.length t') by lia.
        apply andb_prop in E. destruct E as [Ea Eb].
        apply N.eqb_eq in Eb. subst b.
        rewrite Ea. reflexivity.
      * rewrite replace_from_nomatch
          by (rewrite exec_space_start; now rewrite Ha, E).
        rewrite replace_space_later with (n := List.length (b :: t'))
          by lia.
        f_equal. symmetry. apply spec_spaces_flag. exact E.
Qed.

(** ** The newline rewrite *)

Lemma br_plain : ~ In DOLLAR (lit "<br>").
Proof.
  cbv. intros H. repeat (destruct H as [H|H]; [discriminate H|]). exact H.
Qed.

Lemma exec_newline_crlf i t :
  exists y, exec re_newline i (CR :: LF :: t) = Some y /\ pos y = i + 2.
Proof.
  eexists. split; [reflexivity|]. cbn. lia.
Qed.

Lemma exec_newline_cr i t :
  match t with b :: _ => N.eqb b LF = false | [] => True end ->
  exists y, exec re_newline i (CR :: t) = Some y /\ pos y = i + 1.
Proof.
  intros H. unfold exec, re_newline.
  destruct t as [|b t'].
  - eexists. split; [reflexivity|]. cbn. lia.
  - cbn [rmatch rest pos cap advance]. cbn [N.eqb CR LF Pos.eqb].
    rewrite H. eexists. split; [reflexivity|]. cbn. lia.
Qed.

Lemma exec_newline_lf i t :
  exists y, exec re_newline i (LF :: t) = Some y /\ pos y = i + 1.
Proof.
  eexists. split; [reflexivity|]. cbn. lia.
Qed.

Lemma exec_newline_other i a t :
  N.eqb a CR = false -> N.eqb a LF = false ->
  exec re_newline i (a :: t) = None.
Proof.
  intros H1 H2. unfold exec, re_newline.
  cbn [rmatch rest pos cap advance]. now rewrite H1, H2.
Qed.

Lemma replace_newline_from n :
  forall s i, List.length s <= n ->
  replace_from re_newline (lit "<br>") i 0 s = spec_newlines s.
Proof.
  induction n as [|n IH]; intros s i Hn.
  - destruct s; [reflexivity|cbn in Hn; lia].
  - destruct s as [|a t]; [reflexivity|].
    cbn [List.length] in Hn. cbn [spec_newlines].
    destruct (N.eqb_spec a CR) as [->|Hcr].
    + destruct t as [|b t'].
      * destruct (exec_newline_cr i [] I) as (y & Hy & Hp).
        rewrite replace_from_match with (y := y) (k := 0) by assumption.
        rewrite GetSubstitution_plain by apply br_plain. reflexivity.
      * destruct (N.eqb_spec b LF) as [->|Hlf].
        -- destruct (exec_newline_crlf i t') as (y & Hy & Hp).
           rewrite replace_from_match with (y := y) (k := 1) by assumption.
           rewrite GetSubstitution_plain by apply br_plain.
           cbn [replace_from]. rewrite IH by (cbn in Hn; lia). reflexivity.
        -- apply N.eqb_neq in Hlf.
           destruct (exec_newline_cr i (b :: t') Hlf) as (y & Hy & Hp).
           rewrite replace_from_match with (y := y) (k := 0) by assumption.
           rewrite GetSubstitution_plain by apply br_plain.
           rewrite IH by lia. reflexivity.
    + apply N.eqb_neq in Hcr.
      destruct (N.eqb_spec a LF) as [->|Hlf].
      * destruct (exec_newline_lf i t) as (y & Hy & Hp).
        rewrite replace_from_match with (y := y) (k := 0) by assumption.
        rewrite GetSubstitution_plain by apply br_plain.
        rewrite IH by lia. reflexivity.
      * apply N.eqb_neq in Hlf.
        rewrite replace_from_nomatch by now apply exec_newline_other.
        rewrite IH by lia. reflexivity.
Qed.

Lemma replace_newline s :
  replace s re_newline (lit "<br>") = spec_newlines s.
Proof. unfold replace. now apply replace_newline_from with (n := List.length s). Qed.

(** ** The tab rewrite *)

Lemma leading_tabs_le s : leading_tabs s <= List.length s.
Proof.
  induction s as [|c t IH]; cbn; [lia|]. destruct (N.eqb c TAB); lia.
Qed.

Lemma repeat_more_tabs step (k : continuation) :
  (forall y kk, step y kk = rmatch (Chr TAB) y kk) ->
  (forall z, k z <> None) ->
  forall n t p c, leading_tabs t <= n ->
  repeat_more step k n (MState p t c)
  = k (MState (p + leading_tabs t) (skipn (leading_tabs t) t) c).
Proof.
  intros Hstep Hk. induction n as [|n IH]; intros t p c Hn.
  - replace (leading_tabs t) with 0 by lia.
    cbn [repeat_more skipn]. now rewrite Nat.add_0_r.
  - cbn [repeat_more]. rewrite Hstep. cbn [rmatch rest].
    destruct t as [|a t'].
    + cbn [leading_tabs skipn]. now rewrite Nat.add_0_r.
    + cbn [leading_tabs] in Hn |- *.
      destruct (N.eqb a TAB).
      * cbn [advance pos cap]. rewrite (proj2 (Nat.ltb_lt p (S p))) by lia.
        unfold advance. cbn [pos cap]. rewrite IH by lia.
        cbn [skipn].
        replace (S p + leading_tabs t') with (p + S (leading_tabs t'))
          by lia.
        destruct (k _) eqn:E; [reflexivity|]. now apply Hk in E.
      * cbn [skipn]. now rewrite Nat.add_0_r.
Qed.

Lemma exec_tabs_tab i t :
  exec re_tabs i (TAB :: t)
  = Some (MState (S i + leading_tabs t) (skipn (leading_tabs t) t)
            (Some (TAB :: firstn (leading_tabs t) t))).
Proof.
  unfold exec, re_tabs.
  change (rmatch (Group (Plus (Chr TAB))) (MState i (TAB :: t) None) Some)
    with (repeat_more (rmatch (Chr TAB))
            (fun y => Some (MState (pos y) (rest y)
                              (Some (firstn (pos y - i) (TAB :: t)))))
            (List.length t) (MState (S i) t None)).
  rewrite repeat_more_tabs
    by (reflexivity || discriminate || apply leading_tabs_le).
  cbn [pos rest].
  replace (S i + leading_tabs t - i) with (S (leading_tabs t)) by lia.
  reflexivity.
Qed.

Lemma exec_tabs_other i a t :
  N.eqb a TAB = false -> exec re_tabs i (a :: t) = None.
Proof.
  intros H. unfold exec, re_tabs. cbn [rmatch rest]. now rewrite H.
Qed.

Lemma subst_span m g :
  GetSubstitution (has_group re_tabs) m (Some g) span_template
  = span_open ++ g ++ span_close.
Proof.
  unfold span_open. rewrite <- !app_assoc. reflexivity.
Qed.

Lemma spec_tabs_run t :
  spec_tabs true t
  = firstn (leading_tabs t) t ++ span_close
      ++ spec_tabs false (skipn (leading_tabs t) t).
Proof.
  induction t as [|c t IH]; [reflexivity|].
  cbn [spec_tabs leading_tabs].
  destruct (N.eqb c TAB) eqn:E.
  - cbn [firstn skipn app]. now rewrite IH.
  - cbn [firstn skipn app spec_tabs]. now rewrite E.
Qed.

Lemma replace_tabs_from n :
  forall s i, List.length s <= n ->
  replace_from re_tabs span_template i 0 s = spec_tabs false s.
Proof.
  induction n as [|n IH]; intros s i Hn.
  - destruct s; [reflexivity|cbn in Hn; lia].
  - destruct s as [|a t]; [reflexivity|].
    cbn [List.length] in Hn. cbn [spec_tabs].
    destruct (N.eqb_spec a TAB) as [->|Ha].
    + pose proof (leading_tabs_le t) as Hle.
      erewrite replace_from_match with (k := leading_tabs t);
        [|apply exec_tabs_tab|cbn [pos]; lia].
      cbn [cap]. rewrite subst_span.
      rewrite replace_from_skip by exact Hle.
      rewrite IH by (rewrite length_skipn; lia).
      rewrite spec_tabs_run. rewrite <- !app_assoc. reflexivity.
    + apply N.eqb_neq in Ha.
      rewrite replace_from_nomatch by now apply exec_tabs_other.
      rewrite IH by lia. reflexivity.
Qed.

Lemma replace_tabs s :
  replace s re_tabs span_template = spec_tabs false s.
Proof. unfold replace. now apply replace_tabs_from with (n := List.length s). Qed.

(** ** Facts on the escaped text *)

Lemma entity_cases a :
  entity a = [a] /\ N.eqb a AMP = false /\ is_structural a = false
  \/ In a [AMP; LT; GT; DQ; SQ].
Proof.
  unfold entity, is_structural. cbn [existsb In].
  destruct (N.eqb_spec a AMP) as [->|H1]; [right; tauto|].
  destruct (N.eqb_spec a LT) as [->|H2]; [right; tauto|].
  destruct (N.eqb_spec a GT) as [->|H3]; [right; tauto|].
  destruct (N.eqb_spec a DQ) as [->|H4]; [right; tauto|].
  destruct (N.eqb_spec a SQ) as [->|H5]; [right; tauto|].
  left. auto.
Qed.

Lemma spec_entities_no_structural s :
  existsb is_structural (spec_entities s) = false.
Proof.
  induction s as [|a s IH]; [reflexivity|].
  unfold spec_entities in *. cbn [flat_map]. rewrite existsb_app, IH.
  destruct (entity_cases a) as [(-> & _ & H)|H].
  - cbn [existsb]. now rewrite H.
  - cbn [In] in H.
    repeat (destruct H as [<-|H]; [reflexivity|]). destruct H.
Qed.

Lemma spec_entities_amp s : amp_in_entity (spec_entities s) = true.
Proof.
  induction s as [|a s IH]; [reflexivity|].
  unfold spec_entities in *. cbn [flat_map].
  destruct (entity_cases a) as [(-> & H & _)|H].
  - cbn [app amp_in_entity]. now rewrite H, IH.
  - cbn [In] in H.
    repeat (destruct H as [<-|H]; [cbn; exact IH|]). destruct H.
Qed.

Lemma existsb_structural c s :
  is_structural c = true -> existsb is_structural s = false ->
  existsb (N.eqb c) s = false.
Proof.
  intros Hc. induction s as [|a s IH]; [reflexivity|].
  cbn [existsb]. intros H. apply orb_false_elim in H. destruct H as [Ha Hs].
  rewrite IH by exact Hs.
  destruct (N.eqb_spec c a) as [->|_]; [congruence|reflexivity].
Qed.

Lemma startsWith_app pat post : startsWith (pat ++ post) pat = true.
Proof.
  induction pat as [|a pat IH]; [reflexivity|].
  cbn [app startsWith]. now rewrite N.eqb_refl, IH.
Qed.

Lemma includes_app pre pat post : includes (pre ++ pat ++ post) pat = true.
Proof.
  induction pre as [|a pre IH].
  - cbn [app]. destruct (pat ++ post) eqn:E.
    + cbn [includes]. rewrite <- E, startsWith_app. reflexivity.
    + cbn [includes]. rewrite <- E, startsWith_app. reflexivity.
  - cbn [app includes]. rewrite IH. apply orb_true_r.
Qed.

Lemma join_empty l : join (empty_string) l = List.concat l.
Proof.
  induction l as [|x l IH]; [reflexivity|].
  cbn [join List.concat]. destruct l as [|y l'].
  - cbn [List.concat]. now rewrite app_nil_r.
  - rewrite IH. reflexivity.
Qed.

(** ** The shape of the two script tags *)

Lemma scriptToHtml_form script o :
  unwrapHtml (scriptToHtml script o)
  = lit "<script"
      ++ attribute "id" (ScriptOptions.id o)
      ++ attribute "nonce" (ScriptOptions.nonce o)
      ++ attribute "type" (ScriptOptions.type o)
      ++ lit ">" ++ unwrapScript script ++ lit "</script>".
Proof.
  unfold scriptToHtml, attribute, toString. cbv zeta. cbn [unwrapHtml].
  destruct (truthy_string (ScriptOptions.id o));
    destruct (truthy_string (ScriptOptions.nonce o));
    destruct (truthy_string (ScriptOptions.type o));
    rewrite ?htmlEscapeToString_spec, <- ?app_assoc; reflexivity.
Qed.

Lemma scriptUrlToHtml_form src o :
  unwrapHtml (scriptUrlToHtml src o)
  = lit "<script src=" ++ [DQ]
      ++ spec_entities (unwrapResourceUrl src) ++ [DQ]
      ++ (if truthy_bool (ScriptUrlOptions.async o) then lit " async" else [])
      ++ attribute "nonce" (ScriptUrlOptions.nonce o)
      ++ lit "></script>".
Proof.
  unfold scriptUrlToHtml, attribute, toString. cbv zeta. cbn [unwrapHtml].
  destruct (truthy_bool (ScriptUrlOptions.async o));
    destruct (truthy_string (ScriptUrlOptions.nonce o));
    rewrite ?htmlEscapeToString_spec, <- ?app_assoc; reflexivity.
Qed.

Lemma spec_entities_no c s :
  is_structural c = true -> existsb (N.eqb c) (spec_entities s) = false.
Proof.
  intros Hc. apply existsb_structural; [exact Hc|].
  apply spec_entities_no_structural.
Qed.

Lemma attribute_nonce_no_LT v :
  existsb (N.eqb LT) (attribute "nonce" v) = false.
Proof.
  unfold attribute. destruct (truthy_string v) as [x|]; [|reflexivity].
  rewrite !existsb_app, spec_entities_no by reflexivity. reflexivity.
Qed.

(** ** Runs of spaces *)

Lemma spec_entities_app s1 s2 :
  spec_entities (s1 ++ s2) = spec_entities s1 ++ spec_entities s2.
Proof. apply flat_map_app. Qed.

Lemma spec_entities_spaces n : spec_entities (repeat SP n) = repeat SP n.
Proof.
  induction n as [|n IH]; [reflexivity|].
  cbn [repeat]. change (spec_entities (SP :: repeat SP n))
    with (entity SP ++ spec_entities (repeat SP n)).
  rewrite IH. reflexivity.
Qed.

Lemma spec_spaces_run k r :
  spec_spaces false (repeat SP (2 * k) ++ r)
  = List.concat (repeat (SP :: lit "&#160;") k) ++ spec_spaces false r.
Proof.
  induction k as [|k IH]; [reflexivity|].
  replace (2 * S k) with (S (S (2 * k))) by lia.
  cbn [repeat app List.concat].
  change (spec_spaces false (SP :: SP :: repeat SP (2 * k) ++ r))
    with (SP :: lit "&#160;" ++ spec_spaces false (repeat SP (2 * k) ++ r)).
  rewrite IH, <- !app_assoc. reflexivity.
Qed.

(** ** The functions on sample inputs *)

Example htmlEscape_newline :
  unwrapHtml
    (htmlEscape (lit "a" ++ [LF] ++ lit "b")
       {| preserveNewlines := Some true;
          preserveSpaces := None;
          preserveTabs := None |})
  = lit "a<br>b".
Proof. reflexivity. Qed.

Example htmlEscape_tabs :
  unwrapHtml
    (htmlEscape (lit "a" ++ [TAB; TAB] ++ lit "b")
       {| preserveNewlines := None;
          preserveSpaces := None;
          preserveTabs := Some true |})
  = lit "a" ++ span_open ++ [TAB; TAB] ++ span_close ++ lit "b".
Proof. reflexivity. Qed.

Example htmlEscape_all_options :
  unwrapHtml
    (htmlEscape ([CR; LF; TAB] ++ lit "  <b>   c" ++ [TAB; LF; CR; SP; SP])
       {| preserveNewlines := Some true;
          preserveSpaces := Some true;
          preserveTabs := Some true |})
  = lit "<br>" ++ span_open ++ [TAB] ++ span_close
      ++ lit "&#160; &lt;b&gt; &#160; c"
      ++ span_open ++ [TAB] ++ span_close ++ lit "<br><br>&#160; ".
Proof. reflexivity. Qed.

(** The order of the steps shows in the output: on a newline followed by two
    spaces, the newline rewrite done before the space rewrite would leave
    the first space as it is. *)
Example space_rewrite_before_newline_rewrite :
  spec_newlines (spec_spaces true ([LF] ++ lit "  "))
  = lit "<br>&#160; "
  /\ spec_spaces true (spec_newlines ([LF] ++ lit "  "))
     = lit "<br> &#160;".
Proof. split; reflexivity. Qed.

Example scriptUrlToHtml_sample :
  unwrapHtml
    (scriptUrlToHtml (createResourceUrl (lit "a?b&c"))
       (ScriptUrlOptions.make (Some true) (Some (lit "n"))))
  = lit "<script src=" ++ [DQ] ++ lit "a?b&amp;c" ++ [DQ] ++ lit " async nonce="
      ++ [DQ] ++ lit "n" ++ [DQ] ++ lit "></script>".
Proof. reflexivity. Qed.

(** * The claims *)

(** C1 (as amended).  Both tag builders end their output with the closing
    tag [</script>] itself: the [\x3c] of the source text is an escape for
    [<] that exists in the source text only.  The inline builder puts the
    payload, as it is, right before the closing tag.  In the output of the
    external builder the opening [<] and the closing tag are the only places
    with a [<].  Hence either output includes [</script>]. *)
Theorem script_tags_end_with_closing_tag :
  (forall script o, exists pre,
      unwrapHtml (scriptToHtml script o)
      = pre ++ unwrapScript script ++ lit "</script>")
  /\ (forall src o, exists mid,
         unwrapHtml (scriptUrlToHtml src o)
         = lit "<" ++ mid ++ lit "</script>"
         /\ existsb (N.eqb LT) mid = false)
  /\ (forall script o,
         includes (unwrapHtml (scriptToHtml script o)) (lit "</script>")
         = true)
  /\ (forall src o,
         includes (unwrapHtml (scriptUrlToHtml src o)) (lit "</script>")
         = true).
Proof.
  assert (H1 : forall script o, exists pre,
             unwrapHtml (scriptToHtml script o)
             = pre ++ unwrapScript script ++ lit "</script>").
  { intros script o. rewrite scriptToHtml_form.
    exists (lit "<script"
              ++ attribute "id" (ScriptOptions.id o)
              ++ attribute "nonce" (ScriptOptions.nonce o)
              ++ attribute "type" (ScriptOptions.type o) ++ lit ">").
    rewrite <- !app_assoc. reflexivity. }
  assert (H2 : forall src o, exists mid,
             unwrapHtml (scriptUrlToHtml src o)
             = lit "<" ++ mid ++ lit "</script>"
             /\ existsb (N.eqb LT) mid = false).
  { intros src o. rewrite scriptUrlToHtml_form.
    exists (lit "script src=" ++ [DQ]
              ++ spec_entities (unwrapResourceUrl src) ++ [DQ]
              ++ (if truthy_bool (ScriptUrlOptions.async o)
                  then lit " async" else [])
              ++ attribute "nonce" (ScriptUrlOptions.nonce o) ++ lit ">").
    split.
    - rewrite <- !app_assoc. reflexivity.
    - rewrite !existsb_app, attribute_nonce_no_LT,
        spec_entities_no by reflexivity.
      destruct (truthy_bool (ScriptUrlOptions.async o)); reflexivity. }
  repeat split; try assumption.
  - intros script o. destruct (H1 script o) as [pre ->].
    rewrite app_assoc. rewrite <- (app_nil_r (lit "</script>")).
    apply includes_app.
  - intros src o. destruct (H2 src o) as (mid & -> & _).
    rewrite app_assoc. rewrite <- (app_nil_r (lit "</script>")).
    apply includes_app.
Qed.

(** C1, the claim as written fails: the tag built for the payload
    [alert(1)] with no option is [<script>alert(1)</script>], with a plain
    slash, and [</script>] occurs in it. *)
Lemma inline_script_tag_has_closing_tag :
  unwrapHtml (scriptToHtml (createScript (lit "alert(1)")) ScriptOptions.empty)
  = lit "<script>alert(1)</script>"
  /\ includes
       (unwrapHtml
          (scriptToHtml (createScript (lit "alert(1)")) ScriptOptions.empty))
       (lit "</script>") = true
  /\ ~ (forall script o,
          includes (unwrapHtml (scriptToHtml script o)) (lit "</script>")
          = false).
Proof.
  split; [reflexivity|]. split; [reflexivity|].
  intros H.
  specialize (H (createScript (lit "alert(1)")) ScriptOptions.empty).
  vm_compute in H. discriminate H.
Qed.

(** C2.  With the default options the escaped text is the input with each of
    the five characters [&], [<], [>], double quote and single quote replaced
    by its entity and every other code unit kept.  No [<], [>] or quote is left
    in it, and each [&] in it starts one of the five entities. *)
Theorem htmlEscape_default text :
  unwrapHtml (htmlEscape text no_escape_options) = spec_entities text
  /\ existsb is_structural (unwrapHtml (htmlEscape text no_escape_options))
     = false
  /\ amp_in_entity (unwrapHtml (htmlEscape text no_escape_options)) = true.
Proof.
  assert (E : unwrapHtml (htmlEscape text no_escape_options)
              = spec_entities text) by apply htmlEscapeToString_spec.
  rewrite E. split; [reflexivity|]. split.
  - apply spec_entities_no_structural.
  - apply spec_entities_amp.
Qed.

(** C3.  For every text and every setting of the three toggles, [htmlEscape]
    is the entity substitution followed by the space rewrite if
    [preserveSpaces], then the newline rewrite if [preserveNewlines], then the
    wrapping of tab runs if [preserveTabs], in this order. *)
Theorem htmlEscape_fixed_order text o :
  unwrapHtml (htmlEscape text o)
  = spec_htmlEscape text
      (truthy_bool (preserveSpaces o))
      (truthy_bool (preserveNewlines o))
      (truthy_bool (preserveTabs o)).
Proof.
  unfold htmlEscape, spec_htmlEscape. cbv zeta. cbn [unwrapHtml].
  rewrite htmlEscapeToString_spec.
  destruct (truthy_bool (preserveSpaces o));
    destruct (truthy_bool (preserveNewlines o));
    destruct (truthy_bool (preserveTabs o));
    rewrite ?replace_space, ?replace_newline, ?replace_tabs; reflexivity.
Qed.

(** C4.  The concatenation of trusted markup values unwraps to their
    unwrapped strings put one after the other in the order of the list, with
    nothing between them and nothing escaped. *)
Theorem concatHtmls_unwrap htmls :
  unwrapHtml (concatHtmls htmls) = List.concat (map unwrapHtml htmls).
Proof. unfold concatHtmls. cbn [unwrapHtml]. apply join_empty. Qed.

(** C5.  With [preserveSpaces] alone, the output is the escaped text in which
    one pass from left to right has rewritten to [&#160;] each space that
    follows the start of the text, CR, LF, TAB or a space not itself
    rewritten.  In a run of spaces after an ordinary character every second
    space becomes the entity, and [a  b] gives [a &#160;b]. *)
Theorem htmlEscape_preserveSpaces :
  (forall text,
      unwrapHtml (htmlEscape text spaces_only)
      = spec_spaces true (spec_entities text))
  /\ (forall k,
         unwrapHtml
           (htmlEscape (lit "a" ++ repeat SP (2 * k) ++ lit "b") spaces_only)
         = lit "a" ++ List.concat (repeat (SP :: lit "&#160;") k) ++ lit "b")
  /\ unwrapHtml (htmlEscape (lit "a  b") spaces_only) = lit "a &#160;b".
Proof.
  assert (H : forall text,
             unwrapHtml (htmlEscape text spaces_only)
             = spec_spaces true (spec_entities text)).
  { intros text. unfold htmlEscape, spaces_only. cbv zeta.
    cbn [unwrapHtml truthy_bool preserveSpaces preserveNewlines preserveTabs].
    now rewrite htmlEscapeToString_spec, replace_space. }
  split; [exact H|]. split; [|reflexivity].
  intros k. rewrite H, !spec_entities_app, spec_entities_spaces.
  change (spec_entities (lit "a")) with (lit "a").
  change (spec_entities (lit "b")) with (lit "b").
  change (spec_spaces true (lit "a" ++ repeat SP (2 * k) ++ lit "b"))
    with (lit "a" ++ spec_spaces false (repeat SP (2 * k) ++ lit "b")).
  rewrite spec_spaces_run. reflexivity.
Qed.

(** C6 (as amended).  The inline script tag is [<script], then the
    attributes [id], [nonce] and [type] in this order, then [>], the payload
    and the closing tag.  An attribute is written exactly when its option is
    supplied and not the empty string; it then holds the value after the
    five-character escaping between double quotes.  The escaped value has no
    double quote in it, so the id made of a double quote and [x] stays inside
    its attribute.  An attribute that is not supplied, or whose value is the
    empty string, is left out. *)
Theorem scriptToHtml_attributes :
  (forall script o,
      unwrapHtml (scriptToHtml script o)
      = lit "<script"
          ++ (match ScriptOptions.id o with
              | Some (c :: t) =>
                  lit " id=" ++ [DQ] ++ spec_entities (c :: t) ++ [DQ]
              | Some [] | None => []
              end)
          ++ (match ScriptOptions.nonce o with
              | Some (c :: t) =>
                  lit " nonce=" ++ [DQ] ++ spec_entities (c :: t) ++ [DQ]
              | Some [] | None => []
              end)
          ++ (match ScriptOptions.type o with
              | Some (c :: t) =>
                  lit " type=" ++ [DQ] ++ spec_entities (c :: t) ++ [DQ]
              | Some [] | None => []
              end)
          ++ lit ">" ++ unwrapScript script ++ lit "</script>")
  /\ (forall v, existsb (N.eqb DQ) (spec_entities v) = false)
  /\ unwrapHtml
       (scriptToHtml (createScript (lit "alert(1)"))
          (ScriptOptions.make (Some (DQ :: lit "x")) None None))
     = lit "<script id=" ++ [DQ] ++ lit "&quot;x" ++ [DQ]
         ++ lit ">alert(1)</script>".
Proof.
  split; [|split; [|reflexivity]].
  - intros script o. rewrite scriptToHtml_form.
    destruct o as [i n t].
    cbn [ScriptOptions.id ScriptOptions.nonce ScriptOptions.type].
    destruct i as [[|ci ti]|]; destruct n as [[|cn tn]|];
      destruct t as [[|ct tt]|]; reflexivity.
  - intros v. now apply spec_entities_no.
Qed.

(** C6, the claim as written fails: with the id supplied as the empty
    string, the tag for the payload [alert(1)] is the one built without any
    option; the supplied attribute is not written. *)
Lemma scriptToHtml_empty_id :
  ScriptOptions.id (ScriptOptions.make (Some empty_string) None None) <> None
  /\ unwrapHtml
       (scriptToHtml (createScript (lit "alert(1)"))
          (ScriptOptions.make (Some empty_string) None None))
     = lit "<script>alert(1)</script>"
  /\ includes
       (unwrapHtml
          (scriptToHtml (createScript (lit "alert(1)"))
             (ScriptOptions.make (Some empty_string) None None)))
       (lit " id=") = false.
Proof.
  split; [discriminate|]. split; reflexivity.
Qed.

(** C7 (as amended).  The external script tag holds the URL, after the
    five-character escaping, as the value of [src]; then [async] as a bare
    attribute exactly when the option is [true]; then the nonce, after the
    same escaping, as an attribute between double quotes exactly when it is
    present and not the empty string.  The escaped values have no double
    quote in them. *)
Theorem scriptUrlToHtml_attributes :
  (forall src o,
      unwrapHtml (scriptUrlToHtml src o)
      = lit "<script src=" ++ [DQ]
          ++ spec_entities (unwrapResourceUrl src) ++ [DQ]
          ++ (match ScriptUrlOptions.async o with
              | Some true => lit " async"
              | Some false | None => []
              end)
          ++ (match ScriptUrlOptions.nonce o with
              | Some (c :: t) =>
                  lit " nonce=" ++ [DQ] ++ spec_entities (c :: t) ++ [DQ]
              | Some [] | None => []
              end)
          ++ lit "></script>")
  /\ (forall v, existsb (N.eqb DQ) (spec_entities v) = false).
Proof.
  split.
  - intros src o. rewrite scriptUrlToHtml_form.
    destruct o as [a n]. cbn [ScriptUrlOptions.async ScriptUrlOptions.nonce].
    destruct a as [[|]|]; destruct n as [[|c t]|]; reflexivity.
  - intros v. now apply spec_entities_no.
Qed.

(** C7, the claim as written fails: with the nonce present and empty, the
    tag for the URL [u] has the [src] attribute only, without a nonce
    attribute. *)
Lemma scriptUrlToHtml_empty_nonce :
  ScriptUrlOptions.nonce (ScriptUrlOptions.make None (Some (empty_string)))
  <> None
  /\ unwrapHtml
       (scriptUrlToHtml (createResourceUrl (lit "u"))
          (ScriptUrlOptions.make None (Some (empty_string))))
     = lit "<script src=" ++ [DQ] ++ lit "u" ++ [DQ] ++ lit "></script>"
  /\ includes
       (unwrapHtml
          (scriptUrlToHtml (createResourceUrl (lit "u"))
             (ScriptUrlOptions.make None (Some (empty_string)))))
       (lit " nonce=") = false.
Proof.
  split; [discriminate|]. split; reflexivity.
Qed.

(** C8.  The structural escaping is not idempotent: escaping [&amp;] gives
    [&amp;amp;], so escaping [&] twice differs from escaping it once. *)
Theorem htmlEscapeToString_not_idempotent :
  htmlEscapeToString (lit "&amp;") = lit "&amp;amp;"
  /\ unwrapHtml
       (htmlEscape (unwrapHtml (htmlEscape (lit "&") no_escape_options))
          no_escape_options)
     = lit "&amp;amp;"
  /\ exists s,
       htmlEscapeToString (htmlEscapeToString s) <> htmlEscapeToString s.
Proof.
  split; [reflexivity|]. split; [reflexivity|].
  exists (lit "&"). vm_compute. discriminate.
Qed.

(** C9.  The concatenation of no value is the trusted markup value of the
    empty string, and it is neutral: adding it before or after a value, or
    in front of a list, changes nothing. *)
Theorem concatHtmls_nil :
  unwrapHtml (concatHtmls []) = empty_string
  /\ (forall v, concatHtmls [concatHtmls []; v] = v)
  /\ (forall v, concatHtmls [v; concatHtmls []] = v)
  /\ (forall htmls,
         concatHtmls (concatHtmls [] :: htmls) = concatHtmls htmls).
Proof.
  split; [reflexivity|]. split; [intros [v]; reflexivity|]. split.
  - intros [v]. unfold concatHtmls. cbn. now rewrite app_nil_r.
  - intros htmls. unfold concatHtmls. f_equal.
    rewrite !join_empty. reflexivity.
Qed.


(** * Further properties of the functions *)

Lemma htmlEscape_unfold text o :
  htmlEscape text o
  = createHtml
      (spec_htmlEscape text
         (truthy_bool (preserveSpaces o))
         (truthy_bool (preserveNewlines o))
         (truthy_bool (preserveTabs o))).
Proof.
  unfold htmlEscape, spec_htmlEscape. cbv zeta.
  rewrite htmlEscapeToString_spec.
  destruct (truthy_bool (preserveSpaces o));
    destruct (truthy_bool (preserveNewlines o));
    destruct (truthy_bool (preserveTabs o));
    rewrite ?replace_space, ?replace_newline, ?replace_tabs; reflexivity.
Qed.

(** ** The escaping loses nothing *)

Lemma entity_nonempty a : entity a <> [].
Proof.
  destruct (entity_cases a) as [(-> & _ & _)|H]; [discriminate|].
  cbn [In] in H.
  repeat (destruct H as [<-|H]; [discriminate|]). destruct H.
Qed.

Lemma spec_entities_inj s1 :
  forall s2, spec_entities s1 = spec_entities s2 -> s1 = s2.
Proof.
  induction s1 as [|a s1 IH]; intros [|b s2] H.
  - reflexivity.
  - exfalso. unfold spec_entities in H. cbn [flat_map] in H.
    destruct (entity b) eqn:E; [now apply entity_nonempty in E|discriminate].
  - exfalso. unfold spec_entities in H. cbn [flat_map] in H.
    destruct (entity a) eqn:E; [now apply entity_nonempty in E|discriminate].
  - change (entity a ++ spec_entities s1 = entity b ++ spec_entities s2) in H.
    destruct (entity_cases a) as [(Ea & Na & _)|Ha];
      destruct (entity_cases b) as [(Eb & Nb & _)|Hb].
    + rewrite Ea, Eb in H. injection H as -> H. f_equal. now apply IH.
    + rewrite Ea in H. cbn [In] in Hb.
      repeat (destruct Hb as [<-|Hb];
              [cbn in H; injection H as -> _; discriminate Na|]).
      destruct Hb.
    + rewrite Eb in H. cbn [In] in Ha.
      repeat (destruct Ha as [<-|Ha];
              [cbn in H; injection H as <- _; discriminate Nb|]).
      destruct Ha.
    + cbn [In] in Ha, Hb.
      repeat (destruct Ha as [<-|Ha];
              [repeat (destruct Hb as [<-|Hb];
                       [cbn in H; try discriminate H;
                        f_equal; apply IH; congruence|]);
               destruct Hb|]).
      destruct Ha.
Qed.

(** ** Lengths *)

Lemma entity_length a :
  1 <= List.length (entity a) <= 6
  /\ (is_special a = true -> 4 <= List.length (entity a)).
Proof.
  unfold entity, is_special. cbn [existsb].
  destruct (N.eqb a AMP); [cbn; split; [lia|intros _; lia]|].
  destruct (N.eqb a LT); [cbn; split; [lia|intros _; lia]|].
  destruct (N.eqb a GT); [cbn; split; [lia|intros _; lia]|].
  destruct (N.eqb a DQ); [cbn; split; [lia|intros _; lia]|].
  destruct (N.eqb a SQ); cbn; (split; [lia|]); intros H; (lia || discriminate).
Qed.

Lemma spec_entities_length s :
  List.length s <= List.length (spec_entities s) <= 6 * List.length s.
Proof.
  induction s as [|a s IH]; [cbn; lia|].
  change (spec_entities (a :: s)) with (entity a ++ spec_entities s).
  rewrite length_app. cbn [List.length].
  pose proof (entity_length a) as [H _]. lia.
Qed.

Lemma spec_spaces_length b s :
  List.length s <= List.length (spec_spaces b s).
Proof.
  revert b. induction s as [|c t IH]; intros b; [cbn; lia|].
  cbn [spec_spaces]. destruct (b && N.eqb c SP).
  - rewrite length_app. specialize (IH false). cbn [List.length lit]. cbn.
    lia.
  - specialize (IH (is_boundary c)). cbn [List.length]. lia.
Qed.

(** The cases of the newline rewrite, as an induction principle. *)
Lemma spec_newlines_cases (P : list N -> Prop) :
  P [] ->
  (forall t, P t -> P (CR :: LF :: t)) ->
  (forall t, match t with d :: _ => N.eqb d LF = false | [] => True end ->
             P t -> P (CR :: t)) ->
  (forall t, P t -> P (LF :: t)) ->
  (forall c t, N.eqb c CR = false -> N.eqb c LF = false -> P t ->
               P (c :: t)) ->
  forall s, P s.
Proof.
  intros Hnil Hcrlf Hcr Hlf Hc s.
  assert (H : forall n s, List.length s <= n -> P s).
  { induction n as [|n IH]; intros s' Hn.
    - destruct s'; [exact Hnil|cbn in Hn; lia].
    - destruct s' as [|c t]; [exact Hnil|]. cbn [List.length] in Hn.
      destruct (N.eqb_spec c CR) as [->|Hc1].
      + destruct t as [|d t'].
        * apply Hcr; [exact I|exact Hnil].
        * destruct (N.eqb_spec d LF) as [->|Hd].
          -- apply Hcrlf. apply IH. cbn in Hn. lia.
          -- apply Hcr; [now apply N.eqb_neq|apply IH; lia].
      + destruct (N.eqb_spec c LF) as [->|Hc2].
        * apply Hlf. apply IH. lia.
        * apply Hc; [now apply N.eqb_neq|now apply N.eqb_neq|apply IH; lia]. }
  apply (H (List.length s)). lia.
Qed.

Lemma spec_newlines_crlf t :
  spec_newlines (CR :: LF :: t) = lit "<br>" ++ spec_newlines t.
Proof. reflexivity. Qed.

Lemma spec_newlines_cr t :
  match t with d :: _ => N.eqb d LF = false | [] => True end ->
  spec_newlines (CR :: t) = lit "<br>" ++ spec_newlines t.
Proof.
  intros H. destruct t as [|d t']; [reflexivity|].
  cbn [spec_newlines]. cbn [N.eqb CR Pos.eqb]. now rewrite H.
Qed.

Lemma spec_newlines_lf t :
  spec_newlines (LF :: t) = lit "<br>" ++ spec_newlines t.
Proof. reflexivity. Qed.

Lemma spec_newlines_other c t :
  N.eqb c CR = false -> N.eqb c LF = false ->
  spec_newlines (c :: t) = c :: spec_newlines t.
Proof. intros H1 H2. cbn [spec_newlines]. now rewrite H1, H2. Qed.

Lemma spec_newlines_length s :
  List.length s <= List.length (spec_newlines s).
Proof.
  induction s as [|t IH|t Ht IH|t IH|c t H1 H2 IH] using spec_newlines_cases.
  - cbn. lia.
  - rewrite spec_newlines_crlf, length_app. cbn [List.length lit]. cbn. lia.
  - rewrite spec_newlines_cr by exact Ht. rewrite length_app. cbn. lia.
  - rewrite spec_newlines_lf, length_app. cbn. lia.
  - rewrite spec_newlines_other by assumption. cbn. lia.
Qed.

Lemma spec_tabs_length r s :
  List.length s <= List.length (spec_tabs r s).
Proof.
  revert r. induction s as [|c t IH]; intros r; [cbn; lia|].
  cbn [spec_tabs]. destruct (N.eqb c TAB).
  - rewrite length_app. cbn [List.length]. specialize (IH true). lia.
  - rewrite length_app. cbn [List.length]. specialize (IH false). lia.
Qed.

Lemma spec_htmlEscape_length text sp nl tb :
  List.length text <= List.length (spec_htmlEscape text sp nl tb).
Proof.
  unfold spec_htmlEscape. cbv zeta.
  destruct sp, nl, tb;
    repeat (eapply Nat.le_trans;
            [|first [apply spec_tabs_length
                    |apply spec_newlines_length
                    |apply spec_spaces_length]]);
    apply spec_entities_length.
Qed.

(** ** Text without special characters *)

Lemma entity_plain a : is_special a = false -> entity a = [a].
Proof.
  unfold is_special, entity. cbn [existsb]. intros H.
  destruct (N.eqb a AMP); [discriminate H|].
  destruct (N.eqb a LT); [discriminate H|].
  destruct (N.eqb a GT); [discriminate H|].
  destruct (N.eqb a DQ); [discriminate H|].
  destruct (N.eqb a SQ); [discriminate H|reflexivity].
Qed.

Lemma spec_entities_fixed s :
  spec_entities s = s <-> existsb is_special s = false.
Proof.
  induction s as [|a s IH]; [split; reflexivity|].
  change (spec_entities (a :: s)) with (entity a ++ spec_entities s).
  cbn [existsb]. destruct (is_special a) eqn:E.
  - split; [|discriminate]. intros H. exfalso.
    apply (f_equal (@List.length _)) in H.
    rewrite length_app in H. cbn [List.length] in H.
    pose proof (entity_length a) as [_ H4]. specialize (H4 E).
    pose proof (spec_entities_length s) as [Hs _]. lia.
  - rewrite (entity_plain a E). cbn [app orb]. split.
    + intros H. injection H as H. now apply IH.
    + intros H. f_equal. now apply IH.
Qed.

(** ** Characters that a step neither adds nor removes *)

Section Keeps.

Variable p : code_unit -> bool.

Lemma spec_entities_keeps :
  forallb (fun a => Bool.eqb (existsb p (entity a)) (p a))
    [AMP; LT; GT; DQ; SQ] = true ->
  forall s, existsb p (spec_entities s) = existsb p s.
Proof.
  intros Hp. induction s as [|a s IH]; [reflexivity|].
  change (spec_entities (a :: s)) with (entity a ++ spec_entities s).
  rewrite existsb_app, IH. cbn [existsb]. f_equal.
  destruct (entity_cases a) as [(-> & _ & _)|Ha].
  - cbn [existsb]. apply orb_false_r.
  - rewrite forallb_forall in Hp. apply Bool.eqb_prop. now apply Hp.
Qed.

Lemma spec_spaces_keeps :
  p SP = false -> existsb p (lit "&#160;") = false ->
  forall s b, existsb p (spec_spaces b s) = existsb p s.
Proof.
  intros Hsp He. induction s as [|c t IH]; intros b; [reflexivity|].
  cbn [spec_spaces]. destruct (b && N.eqb c SP) eqn:E.
  - apply andb_prop in E. destruct E as [_ E]. apply N.eqb_eq in E. subst c.
    rewrite existsb_app, He, IH. cbn [existsb orb]. now rewrite Hsp.
  - cbn [existsb]. now rewrite IH.
Qed.

Lemma spec_newlines_keeps :
  p CR = false -> p LF = false -> existsb p (lit "<br>") = false ->
  forall s, existsb p (spec_newlines s) = existsb p s.
Proof.
  intros Hcr Hlf Hbr s.
  induction s as [|t IH|t Ht IH|t IH|c t H1 H2 IH] using spec_newlines_cases.
  - reflexivity.
  - rewrite spec_newlines_crlf, existsb_app, Hbr, IH.
    cbn [existsb orb]. now rewrite Hcr, Hlf.
  - rewrite spec_newlines_cr by exact Ht. rewrite existsb_app, Hbr, IH.
    cbn [existsb orb]. now rewrite Hcr.
  - rewrite spec_newlines_lf, existsb_app, Hbr, IH.
    cbn [existsb orb]. now rewrite Hlf.
  - rewrite spec_newlines_other by assumption. cbn [existsb]. now rewrite IH.
Qed.

Lemma spec_tabs_keeps :
  existsb p span_open = false -> existsb p span_close = false ->
  forall s r, existsb p (spec_tabs r s) = existsb p s.
Proof.
  intros Ho Hc. induction s as [|c t IH]; intros r.
  - destruct r; [exact Hc|reflexivity].
  - cbn [spec_tabs]. destruct (N.eqb c TAB); destruct r;
      rewrite ?existsb_app, ?Ho, ?Hc; cbn [existsb app orb]; now rewrite IH.
Qed.

End Keeps.

Lemma spec_spaces_none s :
  existsb (N.eqb SP) s = false -> forall b, spec_spaces b s = s.
Proof.
  induction s as [|c t IH]; intros H b; [reflexivity|].
  cbn [existsb] in H. apply orb_false_elim in H. destruct H as [Hc Ht].
  cbn [spec_spaces]. rewrite N.eqb_sym, Hc, andb_false_r.
  now rewrite IH.
Qed.

Lemma spec_newlines_none s :
  existsb is_newline s = false -> spec_newlines s = s.
Proof.
  induction s as [|c t IH]; intros H; [reflexivity|].
  cbn [existsb] in H. apply orb_false_elim in H. destruct H as [Hc Ht].
  unfold is_newline in Hc. cbn [existsb] in Hc.
  apply orb_false_elim in Hc. destruct Hc as [H1 Hc].
  apply orb_false_elim in Hc. destruct Hc as [H2 _].
  rewrite spec_newlines_other by assumption. now rewrite IH.
Qed.

Lemma spec_tabs_none s :
  existsb (N.eqb TAB) s = false -> spec_tabs false s = s.
Proof.
  induction s as [|c t IH]; intros H; [reflexivity|].
  cbn [existsb] in H. apply orb_false_elim in H. destruct H as [Hc Ht].
  cbn [spec_tabs]. rewrite N.eqb_sym, Hc. cbn [app]. now rewrite IH.
Qed.

Lemma spec_newlines_removes s : existsb is_newline (spec_newlines s) = false.
Proof.
  induction s as [|t IH|t Ht IH|t IH|c t H1 H2 IH] using spec_newlines_cases.
  - reflexivity.
  - rewrite spec_newlines_crlf, existsb_app, IH. reflexivity.
  - rewrite spec_newlines_cr by exact Ht. rewrite existsb_app, IH. reflexivity.
  - rewrite spec_newlines_lf, existsb_app, IH. reflexivity.
  - rewrite spec_newlines_other by assumption. cbn [existsb]. rewrite IH.
    unfold is_newline. cbn [existsb]. now rewrite H1, H2.
Qed.

(** ** Spaces that would collapse *)

Lemma ncs_first f c t :
  N.eqb c SP = false ->
  no_collapsing_space f (c :: t) = no_collapsing_space false t.
Proof.
  intros H. cbn [no_collapsing_space]. rewrite H, andb_false_r. reflexivity.
Qed.

Lemma ncs_app l :
  forall f r,
  no_collapsing_space f (l ++ r)
  = no_collapsing_space f l
    && no_collapsing_space (fold_left (fun _ c => N.eqb c SP) l f) r.
Proof.
  induction l as [|c l IH]; intros f r; [reflexivity|].
  cbn [app no_collapsing_space fold_left]. rewrite IH. apply andb_assoc.
Qed.

Lemma ncs_lit c l f r :
  N.eqb c SP = false -> no_collapsing_space false l = true ->
  no_collapsing_space f ((c :: l) ++ r)
  = no_collapsing_space (fold_left (fun _ a => N.eqb a SP) l false) r.
Proof.
  intros Hc Hl. cbn [app]. rewrite ncs_first by exact Hc.
  now rewrite ncs_app, Hl.
Qed.

Ltac eval_lit t := let l := eval vm_compute in t in change t with l.

Lemma ncs_nbsp f r :
  no_collapsing_space f (lit "&#160;" ++ r) = no_collapsing_space false r.
Proof. eval_lit (lit "&#160;"). now rewrite ncs_lit. Qed.

Lemma ncs_br f r :
  no_collapsing_space f (lit "<br>" ++ r) = no_collapsing_space false r.
Proof. eval_lit (lit "<br>"). now rewrite ncs_lit. Qed.

Lemma ncs_span_open f r :
  no_collapsing_space f (span_open ++ r) = no_collapsing_space false r.
Proof. eval_lit span_open. now rewrite ncs_lit. Qed.

Lemma ncs_span_close f r :
  no_collapsing_space f (span_close ++ r) = no_collapsing_space false r.
Proof. eval_lit span_close. now rewrite ncs_lit. Qed.

Lemma ncs_spaces s :
  forall f b, (f = true -> b = true) ->
  no_collapsing_space f (spec_spaces b s) = true.
Proof.
  induction s as [|c t IH]; intros f b Hfb; [reflexivity|].
  cbn [spec_spaces]. destruct (b && N.eqb c SP) eqn:E.
  - rewrite ncs_nbsp. apply IH. discriminate.
  - cbn [no_collapsing_space].
    rewrite IH.
    + rewrite andb_true_r. destruct f; [|reflexivity].
      rewrite (Hfb eq_refl) in E. cbn [andb] in E |- *. now rewrite E.
    + intros H. unfold is_boundary. cbn [existsb]. rewrite H.
      now rewrite !orb_true_r.
Qed.

Lemma ncs_newlines s :
  forall f, no_collapsing_space f s = true ->
  no_collapsing_space f (spec_newlines s) = true.
Proof.
  induction s as [|t IH|t Ht IH|t IH|c t H1 H2 IH] using spec_newlines_cases;
    intros f H.
  - reflexivity.
  - rewrite spec_newlines_crlf, ncs_br.
    rewrite !ncs_first in H by reflexivity. now apply IH.
  - rewrite spec_newlines_cr, ncs_br by exact Ht.
    rewrite ncs_first in H by reflexivity. now apply IH.
  - rewrite spec_newlines_lf, ncs_br.
    rewrite ncs_first in H by reflexivity. now apply IH.
  - rewrite spec_newlines_other by assumption.
    cbn [no_collapsing_space] in H |- *.
    apply andb_prop in H. destruct H as [Ha Hb].
    rewrite Ha. now apply IH.
Qed.

Lemma ncs_tabs s :
  forall f r, no_collapsing_space f s = true ->
  no_collapsing_space f (spec_tabs r s) = true.
Proof.
  induction s as [|c t IH]; intros f r H.
  - destruct r; [|reflexivity].
    cbn [spec_tabs]. rewrite <- (app_nil_r span_close).
    now rewrite ncs_span_close.
  - cbn [spec_tabs]. destruct (N.eqb_spec c TAB) as [->|Hc].
    + rewrite ncs_first in H by reflexivity.
      destruct r.
      * cbn [app]. rewrite ncs_first by reflexivity. now apply IH.
      * rewrite ncs_span_open, ncs_first by reflexivity. now apply IH.
    + cbn [no_collapsing_space] in H.
      apply andb_prop in H. destruct H as [Ha Hb].
      destruct r.
      * rewrite ncs_span_close. cbn [no_collapsing_space andb negb].
        now apply IH.
      * cbn [app no_collapsing_space]. rewrite Ha. now apply IH.
Qed.

(** ** The attributes of the script tags *)

Lemma existsb_angle_structural s :
  existsb is_structural s = false -> existsb is_angle s = false.
Proof.
  induction s as [|a s IH]; [reflexivity|].
  cbn [existsb]. intros H. apply orb_false_elim in H. destruct H as [Ha Hs].
  rewrite IH by exact Hs. rewrite orb_false_r.
  unfold is_structural, is_angle in *. cbn [existsb] in *.
  destruct (N.eqb a LT); [discriminate Ha|].
  destruct (N.eqb a GT); [discriminate Ha|reflexivity].
Qed.

Lemma attribute_no_angle name v :
  existsb is_angle (lit name) = false ->
  existsb is_angle (attribute name v) = false.
Proof.
  intros Hn. unfold attribute. destruct (truthy_string v) as [x|]; [|reflexivity].
  rewrite !existsb_app, Hn.
  rewrite (existsb_angle_structural _ (spec_entities_no_structural x)).
  reflexivity.
Qed.

(** ** Concatenation *)

Lemma spec_entities_concat texts :
  spec_entities (List.concat texts) = List.concat (map spec_entities texts).
Proof.
  induction texts as [|t texts IH]; [reflexivity|].
  cbn [List.concat map]. now rewrite spec_entities_app, IH.
Qed.

Lemma unwrap_concatHtmls htmls :
  unwrapHtml (concatHtmls htmls) = List.concat (map unwrapHtml htmls).
Proof. unfold concatHtmls. cbn [unwrapHtml]. apply join_empty. Qed.

(** ** Properties of [htmlEscape] *)

Lemma spec_htmlEscape_default text :
  spec_htmlEscape text false false false = spec_entities text.
Proof. reflexivity. Qed.

(** With the default options [htmlEscape] is injective: two texts with the
    same escaped form are the same text. *)
Theorem htmlEscape_injective s1 s2 :
  htmlEscape s1 no_escape_options = htmlEscape s2 no_escape_options ->
  s1 = s2.
Proof.
  rewrite !htmlEscape_unfold.
  cbn [no_escape_options truthy_bool preserveSpaces preserveNewlines
         preserveTabs].
  rewrite !spec_htmlEscape_default. intros H. injection H as H.
  now apply spec_entities_inj.
Qed.

Lemma htmlEscape_injective_witness :
  htmlEscape (lit "a<b") no_escape_options
  = htmlEscape (lit "a<b") no_escape_options
  /\ lit "a<b" = lit "a<b".
Proof.
  split; [reflexivity|]. apply htmlEscape_injective. reflexivity.
Defined.

(** With the default options the output is the text itself exactly when the
    text has none of the five special characters. *)
Theorem htmlEscape_unchanged text :
  unwrapHtml (htmlEscape text no_escape_options) = text
  <-> existsb is_special text = false.
Proof.
  rewrite htmlEscape_unfold. cbn [unwrapHtml].
  cbn [no_escape_options truthy_bool preserveSpaces preserveNewlines
         preserveTabs].
  rewrite spec_htmlEscape_default. apply spec_entities_fixed.
Qed.

Lemma htmlEscape_unchanged_witness :
  existsb is_special (lit "plain text") = false
  /\ unwrapHtml (htmlEscape (lit "plain text") no_escape_options)
     = lit "plain text".
Proof.
  split; [reflexivity|].
  apply (proj2 (htmlEscape_unchanged (lit "plain text"))). reflexivity.
Defined.

(** Escaping pieces of text with the default options and concatenating the
    results is the same as escaping the concatenated text. *)
Theorem concatHtmls_htmlEscape texts :
  concatHtmls (map (fun t => htmlEscape t no_escape_options) texts)
  = htmlEscape (List.concat texts) no_escape_options.
Proof.
  rewrite htmlEscape_unfold.
  cbn [no_escape_options truthy_bool preserveSpaces preserveNewlines
         preserveTabs].
  rewrite spec_htmlEscape_default, spec_entities_concat.
  unfold concatHtmls. f_equal. rewrite join_empty, map_map. f_equal.
  apply map_ext. intros t. rewrite htmlEscape_unfold. reflexivity.
Qed.

(** Concatenation is flat: concatenating concatenations is concatenating
    the joined list, and a list may be concatenated in two parts. *)
Theorem concatHtmls_flatten :
  (forall lists,
      concatHtmls (map concatHtmls lists) = concatHtmls (List.concat lists))
  /\ (forall l1 l2,
         concatHtmls (l1 ++ l2) = concatHtmls [concatHtmls l1; concatHtmls l2]).
Proof.
  split.
  - intros lists. unfold concatHtmls at 1 3. f_equal.
    rewrite !join_empty, map_map.
    induction lists as [|l lists IH]; [reflexivity|].
    cbn [map List.concat]. rewrite map_app, concat_app, IH.
    now rewrite unwrap_concatHtmls.
  - intros l1 l2. unfold concatHtmls at 1 2. f_equal.
    rewrite !join_empty. cbn [map List.concat].
    now rewrite !unwrap_concatHtmls, app_nil_r, map_app, concat_app.
Qed.

Lemma spec_htmlEscape_unused text sp nl tb sp' nl' tb' :
  (existsb (N.eqb SP) text = true -> sp = sp') ->
  (existsb is_newline text = true -> nl = nl') ->
  (existsb (N.eqb TAB) text = true -> tb = tb') ->
  spec_htmlEscape text sp nl tb = spec_htmlEscape text sp' nl' tb'.
Proof.
  intros Hsp Hnl Htb. unfold spec_htmlEscape. cbv zeta.
  set (e0 := spec_entities text).
  assert (E0nl : existsb is_newline e0 = existsb is_newline text)
    by now apply spec_entities_keeps.
  assert (E0tb : existsb (N.eqb TAB) e0 = existsb (N.eqb TAB) text)
    by now apply spec_entities_keeps.
  assert (E1 : (if sp then spec_spaces true e0 else e0)
               = (if sp' then spec_spaces true e0 else e0)).
  { destruct (existsb (N.eqb SP) text) eqn:E.
    - now rewrite Hsp.
    - rewrite (spec_spaces_none e0)
        by (subst e0; now rewrite spec_entities_keeps).
      now destruct sp, sp'. }
  rewrite E1. clear E1 Hsp sp.
  set (e1 := if sp' then spec_spaces true e0 else e0).
  assert (E1nl : existsb is_newline e1 = existsb is_newline text).
  { subst e1. destruct sp'; [|exact E0nl]. now rewrite spec_spaces_keeps. }
  assert (E1tb : existsb (N.eqb TAB) e1 = existsb (N.eqb TAB) text).
  { subst e1. destruct sp'; [|exact E0tb]. now rewrite spec_spaces_keeps. }
  assert (E2 : (if nl then spec_newlines e1 else e1)
               = (if nl' then spec_newlines e1 else e1)).
  { destruct (existsb is_newline text) eqn:E.
    - now rewrite Hnl.
    - rewrite (spec_newlines_none e1) by congruence.
      now destruct nl, nl'. }
  rewrite E2. clear E2 Hnl nl.
  set (e2 := if nl' then spec_newlines e1 else e1).
  assert (E2tb : existsb (N.eqb TAB) e2 = existsb (N.eqb TAB) text).
  { subst e2. destruct nl'; [|exact E1tb]. now rewrite spec_newlines_keeps. }
  destruct (existsb (N.eqb TAB) text) eqn:E.
  - now rewrite Htb.
  - rewrite (spec_tabs_none e2) by congruence.
    now destruct tb, tb'.
Qed.

(** A toggle matters only when its character is in the text: two option
    objects that agree on [preserveSpaces] if the text has a space, on
    [preserveNewlines] if it has a CR or LF, and on [preserveTabs] if it has
    a tab, give the same value. *)
Theorem htmlEscape_unused_toggles text o o' :
  (existsb (N.eqb SP) text = true ->
   truthy_bool (preserveSpaces o) = truthy_bool (preserveSpaces o')) ->
  (existsb is_newline text = true ->
   truthy_bool (preserveNewlines o) = truthy_bool (preserveNewlines o')) ->
  (existsb (N.eqb TAB) text = true ->
   truthy_bool (preserveTabs o) = truthy_bool (preserveTabs o')) ->
  htmlEscape text o = htmlEscape text o'.
Proof.
  intros Hsp Hnl Htb. rewrite !htmlEscape_unfold. f_equal.
  now apply spec_htmlEscape_unused.
Qed.

Lemma htmlEscape_unused_toggles_witness :
  htmlEscape (lit "a" ++ [TAB] ++ lit "<b")
    {| preserveNewlines := Some true;
       preserveSpaces := Some true;
       preserveTabs := Some true |}
  = htmlEscape (lit "a" ++ [TAB] ++ lit "<b")
      {| preserveNewlines := None;
         preserveSpaces := Some false;
         preserveTabs := Some true |}.
Proof.
  apply htmlEscape_unused_toggles.
  - vm_compute. discriminate.
  - vm_compute. discriminate.
  - reflexivity.
Defined.

(** With [preserveNewlines] and [preserveTabs] off, whatever
    [preserveSpaces] is, the output has no [<], [>], double quote or single
    quote. *)
Theorem htmlEscape_spaces_no_markup text o :
  truthy_bool (preserveNewlines o) = false ->
  truthy_bool (preserveTabs o) = false ->
  existsb is_structural (unwrapHtml (htmlEscape text o)) = false.
Proof.
  intros Hnl Htb. rewrite htmlEscape_unfold. cbn [unwrapHtml].
  rewrite Hnl, Htb. unfold spec_htmlEscape. cbv zeta.
  destruct (truthy_bool (preserveSpaces o)).
  - rewrite spec_spaces_keeps by reflexivity.
    apply spec_entities_no_structural.
  - apply spec_entities_no_structural.
Qed.

Lemma htmlEscape_spaces_no_markup_witness :
  existsb is_structural
    (unwrapHtml (htmlEscape (lit "a  <b> 'c'") spaces_only)) = false.
Proof.
  apply htmlEscape_spaces_no_markup; reflexivity.
Defined.

(** With [preserveNewlines] on, whatever the other toggles are, no CR and
    no LF is left in the output. *)
Theorem htmlEscape_newlines_removed text o :
  truthy_bool (preserveNewlines o) = true ->
  existsb is_newline (unwrapHtml (htmlEscape text o)) = false.
Proof.
  intros Hnl. rewrite htmlEscape_unfold. cbn [unwrapHtml].
  rewrite Hnl. unfold spec_htmlEscape. cbv zeta.
  destruct (truthy_bool (preserveTabs o)).
  - rewrite spec_tabs_keeps by reflexivity. apply spec_newlines_removes.
  - apply spec_newlines_removes.
Qed.

Lemma htmlEscape_newlines_removed_witness :
  existsb is_newline
    (unwrapHtml
       (htmlEscape (lit "a" ++ [CR; LF; LF; TAB; CR] ++ lit " b")
          {| preserveNewlines := Some true;
             preserveSpaces := None;
             preserveTabs := Some true |})) = false.
Proof.
  apply htmlEscape_newlines_removed. reflexivity.
Defined.

(** With [preserveSpaces] on, whatever the other toggles are, the output
    does not start with a space and has no two spaces in a row. *)
Theorem htmlEscape_no_collapsing_space text o :
  truthy_bool (preserveSpaces o) = true ->
  no_collapsing_space true (unwrapHtml (htmlEscape text o)) = true.
Proof.
  intros Hsp. rewrite htmlEscape_unfold. cbn [unwrapHtml].
  rewrite Hsp. unfold spec_htmlEscape. cbv zeta.
  assert (H1 : no_collapsing_space true
                 (spec_spaces true (spec_entities text)) = true)
    by now apply ncs_spaces.
  destruct (truthy_bool (preserveNewlines o));
    destruct (truthy_bool (preserveTabs o));
    repeat first [apply ncs_tabs | apply ncs_newlines]; exact H1.
Qed.

Lemma htmlEscape_no_collapsing_space_witness :
  no_collapsing_space true
    (unwrapHtml
       (htmlEscape (lit "  a   b" ++ [LF; SP; TAB; SP; SP])
          {| preserveNewlines := Some true;
             preserveSpaces := Some true;
             preserveTabs := Some true |})) = true.
Proof.
  apply htmlEscape_no_collapsing_space. reflexivity.
Defined.

(** The output is never shorter than the text, whatever the options; with
    the default options it is at most six times as long; and the empty text
    gives the empty string under every option. *)
Theorem htmlEscape_length :
  (forall text o,
      List.length text <= List.length (unwrapHtml (htmlEscape text o)))
  /\ (forall text,
         List.length (unwrapHtml (htmlEscape text no_escape_options))
         <= 6 * List.length text)
  /\ (forall o, unwrapHtml (htmlEscape empty_string o) = empty_string).
Proof.
  split; [|split].
  - intros text o. rewrite htmlEscape_unfold. cbn [unwrapHtml].
    apply spec_htmlEscape_length.
  - intros text. rewrite htmlEscape_unfold. cbn [unwrapHtml].
    cbn [no_escape_options truthy_bool preserveSpaces preserveNewlines
           preserveTabs].
    rewrite spec_htmlEscape_default. apply spec_entities_length.
  - intros o. rewrite htmlEscape_unfold. cbn [unwrapHtml].
    destruct (truthy_bool (preserveSpaces o));
      destruct (truthy_bool (preserveNewlines o));
      destruct (truthy_bool (preserveTabs o)); reflexivity.
Qed.

(** ** Properties of the tag builders *)

(** In both tags, what stands between [<script] and the [>] that ends the
    opening tag has no [<] and no [>]: no option value and no URL can end
    the opening tag or start another one. *)
Theorem script_tags_opening :
  (forall script o, exists attrs,
      unwrapHtml (scriptToHtml script o)
      = lit "<script" ++ attrs ++ lit ">" ++ unwrapScript script
          ++ lit "</script>"
      /\ existsb is_angle attrs = false)
  /\ (forall src o, exists attrs,
         unwrapHtml (scriptUrlToHtml src o)
         = lit "<script" ++ attrs ++ lit "></script>"
         /\ existsb is_angle attrs = false).
Proof.
  split.
  - intros script o.
    exists (attribute "id" (ScriptOptions.id o)
              ++ attribute "nonce" (ScriptOptions.nonce o)
              ++ attribute "type" (ScriptOptions.type o)).
    split.
    + rewrite scriptToHtml_form, <- !app_assoc. reflexivity.
    + rewrite !existsb_app, !attribute_no_angle by reflexivity. reflexivity.
  - intros src o.
    exists (lit " src=" ++ [DQ]
              ++ spec_entities (unwrapResourceUrl src) ++ [DQ]
              ++ (if truthy_bool (ScriptUrlOptions.async o)
                  then lit " async" else [])
              ++ attribute "nonce" (ScriptUrlOptions.nonce o)).
    split.
    + rewrite scriptUrlToHtml_form, <- !app_assoc. reflexivity.
    + rewrite !existsb_app, attribute_no_angle by reflexivity.
      rewrite (existsb_angle_structural _
                 (spec_entities_no_structural (unwrapResourceUrl src))).
      destruct (truthy_bool (ScriptUrlOptions.async o)); reflexivity.
Qed.
